(** * ContFramePool: a contiguous physical-frame allocator

    Shallow embedding of [MP2/MP2_Sources/cont_frame_pool.C] and the
    properties of its packed bitmap, its first-fit search, its
    release protocol and its process-wide pool registry.

    Integers are modelled as [Z] with the wrap-around of the C++ types
    written out ([to_ulong], [to_uint], [to_int], [to_uchar]).  Physical
    memory is a byte-addressed store; a pool's [bitmap] member is an
    address into it.  Pool objects live in an object store indexed by
    their [this] pointer, and the static member [frame_pools_list] is a
    field of the global state.

    The properties are grouped by subject: the bitmap codec (C3), first
    fit (C7), allocation followed by release (C9), ownership resolution
    (C10), then the places where the code departs from its description:
    the registry (C1), release of a frame that heads no run (C2, C5),
    construction (C4, C8) and reservation outside the pool (C6). *)

From Stdlib Require Import ZArith Lia List Bool.
From stdpp Require Import gmap.

Local Open Scope Z_scope.

(** ** Machine integers *)

Module Machine.

(** Widths of the integer types of the source.  [unsigned long] carries
    frame numbers (64 bits, as the data model states), [unsigned int]
    and [int] have 32 bits, [unsigned char] has 8. *)
Definition ulong_bits : Z := 64.
Definition uint_bits : Z := 32.
Definition uchar_bits : Z := 8.

Definition to_ulong (x : Z) : Z := x mod 2 ^ ulong_bits.
Definition to_uint (x : Z) : Z := x mod 2 ^ uint_bits.
Definition to_uchar (x : Z) : Z := x mod 2 ^ uchar_bits.

(** Conversion to [int]: two's complement on [uint_bits] bits. *)
Definition to_int (x : Z) : Z :=
  (x + 2 ^ (uint_bits - 1)) mod 2 ^ uint_bits - 2 ^ (uint_bits - 1).

(** Frame numbers for which no conversion of the source wraps.  (Two
    loop counters of the source are [int]; their overflow is undefined
    in the source and wraps in the model, and cannot occur below this
    bound.) *)
Definition MAX_FRAME : Z := 2 ^ 31.

End Machine.

Import Machine.

(** ** Data model *)

(** Modelled from the spec: [enum class FrameState] of the class
    declaration [cont_frame_pool.H], which is not among the sources.  The
    three states are the enumerators the member functions use; [HoS] is
    [HeadOfSequence]. *)
Inductive FrameState : Type := Free | Used | HoS.

(** The conditions under which the source stops the kernel.  Every one of
    them is an [assert] that fails; the names are those of the error
    taxonomy.  [NotHeadOfSequence] belongs to the taxonomy but no
    statement of the source raises it.  [WildPointer] stands for the
    dereference of a pool pointer that designates no live object
    (undefined behaviour in the source), and [OutOfFuel] for a registry
    walk that does not end within the given number of steps. *)
Inductive Error : Type :=
  | CapacityExceeded
  | InsufficientFreeFrames
  | NoContiguousRegion
  | InvalidReservationTarget
  | UnknownFrame
  | NotHeadOfSequence
  | InvalidState
  | WildPointer
  | OutOfFuel.

(** A value or a failed assertion, for code that does not write. *)
Inductive result (A : Type) : Type :=
  | Ok (a : A)
  | Err (e : Error).
Arguments Ok {A} a.
Arguments Err {A} e.

(** The outcome of code that writes: it returns [a] in state [s], or an
    assertion fails and the machine halts in state [s]. *)
Inductive outcome (S A : Type) : Type :=
  | Done (a : A) (s : S)
  | Halt (e : Error) (s : S).
Arguments Done {S A} a s.
Arguments Halt {S A} e s.

Definition state_of {S A : Type} (o : outcome S A) : S :=
  match o with Done _ s => s | Halt _ s => s end.

(** Physical memory, byte addressed. *)
Definition Memory : Type := Z -> Z.

Definition store (m : Memory) (a v : Z) : Memory :=
  fun x => if x =? a then v else m x.

(** Modelled from the spec: the constant [FRAME_SIZE] of the missing
    class declaration [cont_frame_pool.H], a fixed power of two, 4096
    bytes. *)
Definition FRAME_SIZE : Z := 4096.

(** A pool pointer; [None] is [nullptr]. *)
Definition ptr : Type := option nat.

(** Modelled from the spec: the data members of [class ContFramePool],
    declared in the missing [cont_frame_pool.H]; they are the members the
    member functions read and write.  [bitmap] is the address of the
    first byte of the bitmap. *)
Record Pool : Type := mkPool {
  base_frame_no : Z;
  nframes : Z;
  nFreeFrames : Z;
  info_frame_no : Z;
  bitmap : Z;
  next : ptr;
  prev : ptr
}.

Definition set_nFreeFrames (v : Z) (p : Pool) : Pool :=
  mkPool (base_frame_no p) (nframes p) v (info_frame_no p) (bitmap p)
         (next p) (prev p).
Definition set_info_frame_no (v : Z) (p : Pool) : Pool :=
  mkPool (base_frame_no p) (nframes p) (nFreeFrames p) v (bitmap p)
         (next p) (prev p).
Definition set_bitmap (v : Z) (p : Pool) : Pool :=
  mkPool (base_frame_no p) (nframes p) (nFreeFrames p) (info_frame_no p) v
         (next p) (prev p).
Definition set_next (v : ptr) (p : Pool) : Pool :=
  mkPool (base_frame_no p) (nframes p) (nFreeFrames p) (info_frame_no p)
         (bitmap p) v (prev p).
Definition set_prev (v : ptr) (p : Pool) : Pool :=
  mkPool (base_frame_no p) (nframes p) (nFreeFrames p) (info_frame_no p)
         (bitmap p) (next p) v.

(** The global state: memory, the pool objects by address, and the static
    member [frame_pools_list]. *)
Record World : Type := mkWorld {
  mem : Memory;
  objs : gmap nat Pool;
  frame_pools_list : ptr
}.

(** ** The bitmap codec *)

(** [ContFramePool::get_state]. *)
Definition get_state (p : Pool) (m : Memory) (_frame_no : Z) : result FrameState :=
  let byte_index := to_uint (_frame_no / 4) in
  let bit_offset := to_uint (to_ulong (_frame_no * 2) mod 8) in
  let state_bits :=
    to_uchar (Z.land (Z.shiftr (m (bitmap p + byte_index)) bit_offset) 3) in
  match state_bits with
  | 0 => Ok Free
  | 1 => Ok Used
  | 2 => Ok HoS
  | _ => Err InvalidState
  end.

(** [ContFramePool::set_state]: clear the two-bit field, then or the new
    code in.  Each compound assignment truncates to [unsigned char]. *)
Definition set_state (p : Pool) (m : Memory) (_frame_no : Z) (_state : FrameState)
  : Memory :=
  let byte_index := to_uint (_frame_no / 4) in
  let bit_offset := to_uint (to_ulong (_frame_no * 2) mod 8) in
  let state_bits := match _state with Free => 0 | Used => 1 | HoS => 2 end in
  let a := bitmap p + byte_index in
  let m1 := store m a (to_uchar (Z.land (m a) (Z.lnot (Z.shiftl 3 bit_offset)))) in
  store m1 a (to_uchar (Z.lor (m1 a) (Z.shiftl state_bits bit_offset))).

(** [ContFramePool::needed_info_frames]. *)
Definition needed_info_frames (_n_frames : Z) : Z :=
  to_ulong (_n_frames / to_uint (4 * FRAME_SIZE)
            + (if 0 <? _n_frames mod to_uint (4 * FRAME_SIZE) then 1 else 0)).

(** ** Reservation and allocation *)

Definition PoolMem : Type := (Pool * Memory)%type.

(** The loop of [mark_inaccessible], for [k] iterations from
    [current_frame_no] (an [int]): every frame must be [Free] and becomes
    [Used]. *)
Fixpoint mark_used (k : nat) (current_frame_no : Z) (p : Pool) (m : Memory)
  : outcome Memory unit :=
  match k with
  | O => Done tt m
  | S k' =>
      let f := to_ulong current_frame_no in
      match get_state p m f with
      | Err e => Halt e m
      | Ok Free => mark_used k' (to_int (current_frame_no + 1)) p (set_state p m f Used)
      | Ok _ => Halt InvalidReservationTarget m
      end
  end.

(** [ContFramePool::mark_inaccessible].  The loop counter is an [int]
    compared with an [unsigned long]; the loop runs once for every value
    from [_base_frame_no + 1] up to, and without, the bound
    [_base_frame_no + _n_frames], that is [bound - start] times. *)
Definition mark_inaccessible (p : Pool) (m : Memory) (_base_frame_no _n_frames : Z)
  : outcome PoolMem unit :=
  match get_state p m _base_frame_no with
  | Err e => Halt e (p, m)
  | Ok Free =>
      if to_ulong (_base_frame_no + _n_frames)
         <=? to_ulong (base_frame_no p + nframes p) then
        let m1 := set_state p m _base_frame_no HoS in
        let start := to_int (to_ulong (_base_frame_no + 1)) in
        let bound := to_ulong (_base_frame_no + _n_frames) in
        match mark_used (Z.to_nat (bound - to_ulong start)) start p m1 with
        | Halt e m2 => Halt e (p, m2)
        | Done _ m2 =>
            Done tt (set_nFreeFrames (to_ulong (nFreeFrames p - _n_frames)) p, m2)
        end
      else Halt InvalidReservationTarget (p, m)
  | Ok _ => Halt InvalidReservationTarget (p, m)
  end.

(** The scan of [get_frames], for [k] iterations from [current_frame_no].
    [first] is [first_frame_of_sequence] (an [unsigned int]) and [found]
    is [n_contiguous_frames_found]. *)
Fixpoint scan (k : nat) (current_frame_no first found _n_frames : Z)
              (p : Pool) (m : Memory) : outcome PoolMem Z :=
  match k with
  | O => Halt NoContiguousRegion (p, m)
  | S k' =>
      match get_state p m current_frame_no with
      | Err e => Halt e (p, m)
      | Ok Free =>
          let first' := if found =? 0 then to_uint current_frame_no else first in
          let found' := to_ulong (found + 1) in
          if found' =? _n_frames then
            match mark_inaccessible p m first' found' with
            | Done _ s => Done first' s
            | Halt e s => Halt e s
            end
          else scan k' (to_ulong (current_frame_no + 1)) first' found' _n_frames p m
      | Ok _ => scan k' (to_ulong (current_frame_no + 1)) first 0 _n_frames p m
      end
  end.

(** [ContFramePool::get_frames].  The scan visits the frames from
    [base_frame_no] up to, and without, [base_frame_no + nframes], unless
    it returns before; the two assertions come first. *)
Definition get_frames (p : Pool) (m : Memory) (_n_frames : Z) : outcome PoolMem Z :=
  if _n_frames <=? nFreeFrames p then
    if _n_frames <=? nframes p then
      scan (Z.to_nat (to_ulong (base_frame_no p + nframes p) - base_frame_no p))
           (base_frame_no p) 0 0 _n_frames p m
    else Halt InsufficientFreeFrames (p, m)
  else Halt InsufficientFreeFrames (p, m).

(** ** Release *)

(** The inner loop of [release_frames]: while the frame is inside the
    pool and [Used], free it.  [k] is the number of frames left up to the
    end of the pool. *)
Fixpoint release_run (k : nat) (current_frame : Z) (p : Pool) (m : Memory)
  : outcome PoolMem unit :=
  match k with
  | O => Done tt (p, m)
  | S k' =>
      match get_state p m current_frame with
      | Err e => Halt e (p, m)
      | Ok Used =>
          release_run k' (to_ulong (current_frame + 1))
                      (set_nFreeFrames (to_ulong (nFreeFrames p + 1)) p)
                      (set_state p m current_frame Free)
      | Ok _ => Done tt (p, m)
      end
  end.

Definition owns (p : Pool) (_first_frame_no : Z) : bool :=
  (base_frame_no p <=? _first_frame_no)
  && (_first_frame_no <? to_ulong (base_frame_no p + nframes p)).

(** What [release_frames] does once [current_pool], the object [p] at
    address [a], owns the frame: free the frame, then the [Used] frames
    that follow it inside the pool.  ([frames_released] only feeds a
    commented-out message and is left out.) *)
Definition release_in (a : nat) (p : Pool) (_first_frame_no : Z) (w : World)
  : outcome World unit :=
  let m1 := set_state p (mem w) _first_frame_no Free in
  let current_frame := to_ulong (_first_frame_no + 1) in
  let p1 := set_nFreeFrames (to_ulong (nFreeFrames p + 1)) p in
  let bound := to_ulong (base_frame_no p + nframes p) in
  match release_run (Z.to_nat (bound - current_frame)) current_frame p1 m1 with
  | Done _ (p2, m2) =>
      Done tt (mkWorld m2 (<[a := p2]> (objs w)) (frame_pools_list w))
  | Halt e (p2, m2) =>
      Halt e (mkWorld m2 (<[a := p2]> (objs w)) (frame_pools_list w))
  end.

(** The outer loop of [release_frames]: follow [next] from
    [current_pool] until a pool owns the frame. *)
Fixpoint release_walk (fuel : nat) (current_pool : ptr) (_first_frame_no : Z)
                      (w : World) : outcome World unit :=
  match current_pool with
  | None => Halt UnknownFrame w
  | Some a =>
      match fuel with
      | O => Halt OutOfFuel w
      | S fuel' =>
          match objs w !! a with
          | None => Halt WildPointer w
          | Some p =>
              if owns p _first_frame_no then release_in a p _first_frame_no w
              else release_walk fuel' (next p) _first_frame_no w
          end
      end
  end.

(** [ContFramePool::release_frames] (static).  A chain of [next] links
    without a cycle is no longer than the number of pool objects, so the
    fuel runs out only on a cyclic chain. *)
Definition release_frames (_first_frame_no : Z) (w : World) : outcome World unit :=
  release_walk (S (size (objs w))) (frame_pools_list w) _first_frame_no w.

(** ** Construction *)

(** The first loop of the constructor: [k] calls of
    [set_state (i, Free)], [i] an [int]. *)
Fixpoint init_free (k : nat) (i : Z) (p : Pool) (m : Memory) : Memory :=
  match k with
  | O => m
  | S k' => init_free k' (to_int (i + 1)) p (set_state p m (to_ulong i) Free)
  end.

(** The registration at the end of the constructor. *)
Definition register (this : nat) (w : World) : World :=
  let w1 :=
    match frame_pools_list w with
    | None => mkWorld (mem w) (objs w) (Some this)
    | Some head =>
        mkWorld (mem w) (alter (set_next (Some this)) head (objs w))
                (frame_pools_list w)
    end in
  mkWorld (mem w1) (alter (set_prev (frame_pools_list w1)) this (objs w1))
          (frame_pools_list w1).

(** [ContFramePool::ContFramePool].  [this] is the address of the object
    under construction and [raw] what its storage holds when the body
    starts: the constructor reads the member [bitmap] before it assigns
    it, and never assigns [next]. *)
Definition ContFramePool (this : nat) (raw : Pool)
    (_base_frame_no _n_frames _info_frame_no : Z) (w : World)
  : outcome World unit :=
  if _n_frames <=? to_uint (FRAME_SIZE * 4) then
    let p1 := mkPool _base_frame_no _n_frames _n_frames _info_frame_no
                     (bitmap raw) (next raw) (prev raw) in
    let n_info_frames := needed_info_frames (nframes p1) in
    let i0 := to_int (base_frame_no p1) in
    let bound := to_ulong (base_frame_no p1 + nframes p1) in
    let m1 := init_free (Z.to_nat (bound - to_ulong i0)) i0 p1 (mem w) in
    if info_frame_no p1 =? 0 then
      let p2 := set_info_frame_no (base_frame_no p1)
                  (set_bitmap (to_ulong (base_frame_no p1 * FRAME_SIZE)) p1) in
      match get_frames p2 m1 (to_uint n_info_frames) with
      | Halt e (p3, m3) =>
          Halt e (mkWorld m3 (<[this := p3]> (objs w)) (frame_pools_list w))
      | Done _ (p3, m3) =>
          Done tt (register this
                     (mkWorld m3 (<[this := p3]> (objs w)) (frame_pools_list w)))
      end
    else
      let p2 := set_bitmap (to_ulong (info_frame_no p1 * FRAME_SIZE)) p1 in
      let m2 := set_state p2 m1 (info_frame_no p2) Used in
      Done tt (register this
                 (mkWorld m2 (<[this := p2]> (objs w)) (frame_pools_list w)))
  else Halt CapacityExceeded w.

(** The pools met by following [next] from the registry head, in order
    (what [release_frames] and [print_pool_info] traverse). *)
Fixpoint chain (fuel : nat) (cur : ptr) (o : gmap nat Pool) : list nat :=
  match fuel, cur with
  | S fuel', Some a =>
      a :: match o !! a with
           | Some p => chain fuel' (next p) o
           | None => nil
           end
  | _, _ => nil
  end.

Definition registry (w : World) : list nat :=
  chain (S (size (objs w))) (frame_pools_list w) (objs w).

(** ** Vocabulary of the properties *)

(** The two-bit field of byte [b] at bit offset [off], and byte [b] with
    that field overwritten by the code [c]. *)
Definition field (b off : Z) : Z := Z.land (Z.shiftr b off) 3.

Definition poke (b off c : Z) : Z :=
  to_uchar (Z.lor (to_uchar (Z.land b (Z.lnot (Z.shiftl 3 off)))) (Z.shiftl c off)).

(** The encoding [Free = 00], [Used = 01], [HeadOfSequence = 10]; the
    code [11] decodes to the [InvalidState] condition. *)
Definition code (s : FrameState) : Z :=
  match s with Free => 0 | Used => 1 | HoS => 2 end.

Definition decode (c : Z) : result FrameState :=
  match c with
  | 0 => Ok Free
  | 1 => Ok Used
  | 2 => Ok HoS
  | _ => Err InvalidState
  end.

Definition slot_offset (off : Z) : Prop :=
  off = 0 \/ off = 2 \/ off = 4 \/ off = 6.

(** A pool whose frame numbers stay below [MAX_FRAME] and whose free
    count is a value of its type. *)
Definition pool_bounds (p : Pool) : Prop :=
  0 <= base_frame_no p /\ 0 <= nframes p
  /\ base_frame_no p + nframes p < MAX_FRAME
  /\ 0 <= nFreeFrames p < 2 ^ 64.

(** [p'] is [p] with another free count. *)
Definition same_but_free (p p' : Pool) : Prop :=
  p' = set_nFreeFrames (nFreeFrames p') p.

(** The pool at which the walk of [release_frames] stops for frame [f]:
    the first pool on the chain of [next] links that owns it. *)
Fixpoint find_owner (fuel : nat) (cur : ptr) (f : Z) (o : gmap nat Pool)
  : option nat :=
  match cur, fuel with
  | Some a, S fuel' =>
      match o !! a with
      | Some p => if owns p f then Some a else find_owner fuel' (next p) f o
      | None => None
      end
  | _, _ => None
  end.

Definition owner (w : World) (f : Z) : option nat :=
  find_owner (S (size (objs w))) (frame_pools_list w) f (objs w).

(** A call [this->get_frames (n)] on the pool object at address [this]. *)
Definition call_get_frames (this : nat) (n : Z) (w : World) : outcome World Z :=
  match objs w !! this with
  | None => Halt WildPointer w
  | Some p =>
      match get_frames p (mem w) n with
      | Done h (p1, m1) =>
          Done h (mkWorld m1 (<[this := p1]> (objs w)) (frame_pools_list w))
      | Halt e (p1, m1) =>
          Halt e (mkWorld m1 (<[this := p1]> (objs w)) (frame_pools_list w))
      end
  end.

(** A call [this->mark_inaccessible (b, n)] on the pool object at
    address [this]. *)
Definition call_mark_inaccessible (this : nat) (b n : Z) (w : World)
  : outcome World unit :=
  match objs w !! this with
  | None => Halt WildPointer w
  | Some p =>
      match mark_inaccessible p (mem w) b n with
      | Done u (p1, m1) =>
          Done u (mkWorld m1 (<[this := p1]> (objs w)) (frame_pools_list w))
      | Halt e (p1, m1) =>
          Halt e (mkWorld m1 (<[this := p1]> (objs w)) (frame_pools_list w))
      end
  end.

(** Every frame of [lo, hi) reads [s] in the bitmap of [p]. *)
Definition all_state (p : Pool) (m : Memory) (lo hi : Z) (s : FrameState) : Prop :=
  forall g, lo <= g < hi -> get_state p m g = Ok s.

(** The two memories agree on every frame below [MAX_FRAME] outside
    [lo, hi), as read through the bitmap of [p]. *)
Definition same_outside (p : Pool) (m m' : Memory) (lo hi : Z) : Prop :=
  forall g, 0 <= g < MAX_FRAME -> ~ (lo <= g < hi) ->
            get_state p m' g = get_state p m g.

(** The two memories agree on every byte that is not the bitmap byte of a
    frame of [lo, hi). *)
Definition same_bytes_outside (p : Pool) (m m' : Memory) (lo hi : Z) : Prop :=
  forall x, (forall g, lo <= g < hi -> x <> bitmap p + g / 4) -> m' x = m x.

(** The sum of the lengths of the allocated runs of a pool: for every
    [HeadOfSequence] frame, one plus the number of [Used] frames that
    follow it directly. *)
Fixpoint run_length (k : nat) (c : Z) (p : Pool) (m : Memory) : Z :=
  match k with
  | O => 0
  | S k' =>
      match get_state p m c with
      | Ok Used => 1 + run_length k' (c + 1) p m
      | _ => 0
      end
  end.

Fixpoint runs_total (k : nat) (c : Z) (p : Pool) (m : Memory) : Z :=
  match k with
  | O => 0
  | S k' =>
      match get_state p m c with
      | Ok HoS => 1 + run_length k' (c + 1) p m
      | _ => 0
      end + runs_total k' (c + 1) p m
  end.

Definition allocated (p : Pool) (m : Memory) : Z :=
  runs_total (Z.to_nat (nframes p)) (base_frame_no p) p m.

(** Conservation for the pool object at address [a]. *)
Definition conserved (a : nat) (w : World) : Prop :=
  exists p, objs w !! a = Some p
            /\ nFreeFrames p + allocated p (mem w) = nframes p.

(** The state of frame [f] as the pool object at address [a] reads it. *)
Definition frame_state (a : nat) (f : Z) (w : World) : option (result FrameState) :=
  match objs w !! a with
  | Some p => Some (get_state p (mem w) f)
  | None => None
  end.

Definition free_count (a : nat) (w : World) : option Z :=
  match objs w !! a with
  | Some p => Some (nFreeFrames p)
  | None => None
  end.

(** Sequencing of operations; a halt ends the sequence. *)
Definition and_then {S A B : Type} (o : outcome S A) (k : A -> S -> outcome S B)
  : outcome S B :=
  match o with
  | Done a s => k a s
  | Halt e s => Halt e s
  end.

(** [n] consecutive free frames of the pool, starting at [h]. *)
Definition free_run (p : Pool) (m : Memory) (n h : Z) : Prop :=
  base_frame_no p <= h /\ h + n <= base_frame_no p + nframes p
  /\ all_state p m h (h + n) Free.

(** Every frame of the pool holds one of the three states. *)
Definition valid_states (p : Pool) (m : Memory) : Prop :=
  forall g, base_frame_no p <= g < base_frame_no p + nframes p ->
            exists st, get_state p m g = Ok st.

(** Executable checks over a range of frames, for concrete states. *)
Fixpoint range_all (k : nat) (lo : Z) (f : Z -> bool) : bool :=
  match k with
  | O => true
  | S k' => f lo && range_all k' (lo + 1) f
  end.

Definition reads (p : Pool) (m : Memory) (s : FrameState) (g : Z) : bool :=
  match get_state p m g, s with
  | Ok Free, Free | Ok Used, Used | Ok HoS, HoS => true
  | _, _ => false
  end.

Definition is_valid (p : Pool) (m : Memory) (g : Z) : bool :=
  match get_state p m g with Ok _ => true | Err _ => false end.

(** ** Concrete states *)

Definition zero_memory : Memory := fun _ => 0.

(** Object storage whose members are all zero, pointers null. *)
Definition null_object : Pool := mkPool 0 0 0 0 0 None None.

Definition empty_world (m : Memory) : World := mkWorld m ∅ None.

(** Three self-hosted pools of eight frames each, constructed one after
    the other at the addresses 1, 2 and 3. *)
Definition three_pools : outcome World unit :=
  and_then (ContFramePool 1 null_object 0 8 0 (empty_world zero_memory)) (fun _ w1 =>
  and_then (ContFramePool 2 null_object 8 8 0 w1) (fun _ w2 =>
  ContFramePool 3 null_object 16 8 0 w2)).

(** One self-hosted pool over the frames [8, 16), constructed at address
    1 in memory [m].  Its bitmap is at address [8 * FRAME_SIZE = 32768];
    the states of the frames 8..11 are in byte 32770, those of the frames
    12..15 in byte 32771. *)
Definition one_pool (m : Memory) : outcome World unit :=
  ContFramePool 1 null_object 8 8 0 (empty_world m).

(** A pool over the frames [0, 20), constructed at address 1 with its
    bitmap in frame 100, in which [mark_inaccessible (3, 7)] has then
    reserved the frames [3, 10): the frames [0, 3) and [10, 20) are
    free, the rest is used.  [first_fit_pool] is the pool object in that
    world. *)
Definition first_fit_world : World :=
  state_of
    (and_then (ContFramePool 1 null_object 0 20 100 (empty_world zero_memory))
              (fun _ w => call_mark_inaccessible 1 3 7 w)).

Definition first_fit_pool : Pool := mkPool 0 20 13 100 409600 None (Some 1%nat).

Definition first_fit_memory : Memory := mem first_fit_world.





(** Two self-hosted pools over [0, 100) and [100, 200), constructed at
    the addresses 1 and 2; in the second pool [mark_inaccessible (150, 3)]
    has then reserved the run 150..152.  [pool_low] and [pool_high] are
    the two pool objects in that world. *)
Definition two_pools_world : World :=
  state_of
    (and_then (ContFramePool 1 null_object 0 100 0 (empty_world zero_memory))
       (fun _ w1 =>
          and_then (ContFramePool 2 null_object 100 100 0 w1)
            (fun _ w2 => call_mark_inaccessible 2 150 3 w2))).

Definition pool_low : Pool := mkPool 0 100 99 0 0 (Some 2%nat) (Some 1%nat).

Definition pool_high : Pool := mkPool 100 100 96 100 409600 None (Some 1%nat).

(** Memories that are not zero where the bitmap of [one_pool] will be:
    byte 32771 holds the code [10] for frame 12 (and byte 2, which no
    bitmap of the pool covers, holds 255), respectively byte 32770 holds
    the code [01] for frame 8. *)
Definition stale_memory : Memory := store (store zero_memory 32771 2) 2 255.

Definition stale_base_memory : Memory := store zero_memory 32770 1.

(** ** Counting free frames *)

(** The number of frames of [c, c + k) that read [Free], and the number
    of free frames of a pool; the member [nFreeFrames] caches it. *)
Fixpoint count_free (k : nat) (c : Z) (p : Pool) (m : Memory) : Z :=
  match k with
  | O => 0
  | S k' => (if reads p m Free c then 1 else 0) + count_free k' (c + 1) p m
  end.

Definition free_frames (p : Pool) (m : Memory) : Z :=
  count_free (Z.to_nat (nframes p)) (base_frame_no p) p m.

Definition count_consistent (p : Pool) (m : Memory) : Prop :=
  nFreeFrames p = free_frames p m.

(** Every pool on the registry chain is a live object that does not own
    frame [f], and the chain ends. *)
Definition nobody_owns (w : World) (f : Z) : Prop :=
  Forall (fun a => exists p, objs w !! a = Some p /\ owns p f = false) (registry w)
  /\ (length (registry w) <= size (objs w))%nat.

(** * Properties *)

(** ** Machine integers *)

Lemma to_ulong_small x : 0 <= x < 2 ^ 64 -> to_ulong x = x.
Proof. intros H. unfold to_ulong, ulong_bits. apply Z.mod_small. exact H. Qed.

Lemma to_uint_small x : 0 <= x < 2 ^ 32 -> to_uint x = x.
Proof. intros H. unfold to_uint, uint_bits. apply Z.mod_small. exact H. Qed.

Lemma to_uchar_small x : 0 <= x < 2 ^ 8 -> to_uchar x = x.
Proof. intros H. unfold to_uchar, uchar_bits. apply Z.mod_small. exact H. Qed.

Lemma to_int_small x : - 2 ^ 31 <= x < 2 ^ 31 -> to_int x = x.
Proof.
  intros H. unfold to_int, uint_bits. simpl Z.sub.
  rewrite Z.mod_small; lia.
Qed.

Lemma MAX_FRAME_eq : MAX_FRAME = 2147483648.
Proof. reflexivity. Qed.

(** Rewrites the conversions of frame numbers below [MAX_FRAME] away. *)
Ltac bounds := pose proof MAX_FRAME_eq; lia.

Ltac unwrap :=
  repeat match goal with
         | |- context [to_ulong ?x] => rewrite (to_ulong_small x) by bounds
         | |- context [to_int ?x] => rewrite (to_int_small x) by bounds
         | |- context [to_uint ?x] => rewrite (to_uint_small x) by bounds
         end.

(** ** Two-bit fields *)

Lemma testbit_3 n : Z.testbit 3 n = (0 <=? n) && (n <? 2).
Proof.
  destruct (Z.ltb_spec n 0).
  - rewrite Z.testbit_neg_r by lia. destruct (Z.leb_spec 0 n); [lia | reflexivity].
  - destruct (Z.eq_dec n 0) as [-> | ?]; [reflexivity |].
    destruct (Z.eq_dec n 1) as [-> | ?]; [reflexivity |].
    change 3 with (Z.ones 2). rewrite Z.ones_spec_high by lia.
    destruct (Z.leb_spec 0 n), (Z.ltb_spec n 2); simpl; try lia; reflexivity.
Qed.

Lemma testbit_two_bits c n : 0 <= c < 4 -> 2 <= n -> Z.testbit c n = false.
Proof.
  intros Hc Hn. rewrite <- (Z.mod_small c (2 ^ 2)) by (simpl; lia).
  apply Z.mod_pow2_bits_high. lia.
Qed.

Lemma field_testbit b off n :
  0 <= off -> 0 <= n ->
  Z.testbit (field b off) n = Z.testbit b (n + off) && ((0 <=? n) && (n <? 2)).
Proof.
  intros Ho Hn. unfold field.
  rewrite Z.land_spec, Z.shiftr_spec, testbit_3 by lia. reflexivity.
Qed.

Lemma poke_testbit b off c i :
  0 <= off -> 0 <= i < 8 ->
  Z.testbit (poke b off c) i
  = (Z.testbit b i && negb ((0 <=? i - off) && (i - off <? 2)))
    || Z.testbit c (i - off).
Proof.
  intros Ho Hi. unfold poke, to_uchar, uchar_bits.
  rewrite Z.mod_pow2_bits_low by lia.
  rewrite Z.lor_spec, Z.mod_pow2_bits_low by lia.
  rewrite Z.land_spec, Z.lnot_spec by lia.
  rewrite !Z.shiftl_spec by lia. rewrite testbit_3. reflexivity.
Qed.

Lemma field_range b off : 0 <= field b off < 4.
Proof.
  unfold field. change 3 with (Z.ones 2). rewrite Z.land_ones by lia.
  apply Z.mod_pos_bound. reflexivity.
Qed.

Lemma field_poke_same b off c :
  slot_offset off -> 0 <= c < 4 -> field (poke b off c) off = c.
Proof.
  intros Ho Hc. apply Z.bits_inj'. intros n Hn.
  assert (0 <= off <= 6) by (unfold slot_offset in Ho; lia).
  rewrite field_testbit by lia.
  destruct (Z.ltb_spec n 2) as [Hlt | Hge].
  - rewrite poke_testbit by lia.
    replace (n + off - off) with n by lia.
    destruct (Z.leb_spec 0 n); [| lia].
    destruct (Z.ltb_spec n 2); [| lia].
    simpl. rewrite andb_false_r, andb_true_r. reflexivity.
  - rewrite !andb_false_r. symmetry. apply testbit_two_bits; lia.
Qed.

Lemma field_poke_other b off off' c :
  slot_offset off -> slot_offset off' -> off <> off' -> 0 <= c < 4 ->
  field (poke b off c) off' = field b off'.
Proof.
  intros Ho Ho' Hne Hc. apply Z.bits_inj'. intros n Hn.
  assert (0 <= off <= 6) by (unfold slot_offset in Ho; lia).
  assert (0 <= off' <= 6) by (unfold slot_offset in Ho'; lia).
  rewrite !field_testbit by lia.
  destruct (Z.ltb_spec n 2) as [Hlt | Hge]; [| rewrite !andb_false_r; reflexivity].
  rewrite poke_testbit by lia.
  assert (Hd : n + off' - off < 0 \/ 2 <= n + off' - off)
    by (unfold slot_offset in Ho, Ho'; lia).
  replace (Z.testbit c (n + off' - off)) with false.
  2:{ symmetry. destruct Hd; [apply Z.testbit_neg_r | apply testbit_two_bits]; lia. }
  replace ((0 <=? n + off' - off) && (n + off' - off <? 2)) with false.
  2:{ symmetry. destruct Hd.
      - destruct (Z.leb_spec 0 (n + off' - off)); [lia | reflexivity].
      - destruct (Z.ltb_spec (n + off' - off) 2); [lia | apply andb_false_r]. }
  simpl. rewrite orb_false_r, andb_true_r. reflexivity.
Qed.

Lemma code_range s : 0 <= code s < 4.
Proof. destruct s; simpl; lia. Qed.

Lemma decode_code s : decode (code s) = Ok s.
Proof. destruct s; reflexivity. Qed.

(** ** The codec on frame numbers *)

Lemma byte_index_eq f : 0 <= f < MAX_FRAME -> to_uint (f / 4) = f / 4.
Proof.
  intros H. rewrite MAX_FRAME_eq in H. apply to_uint_small.
  split; [apply Z.div_pos; lia |].
  apply Z.div_lt_upper_bound; lia.
Qed.

Lemma bit_offset_eq f :
  0 <= f < MAX_FRAME -> to_uint (to_ulong (f * 2) mod 8) = f mod 4 * 2.
Proof.
  intros H. rewrite MAX_FRAME_eq in H.
  rewrite (to_ulong_small (f * 2)) by lia.
  assert (0 <= (f * 2) mod 8 < 8) by (apply Z.mod_pos_bound; lia).
  rewrite to_uint_small by lia.
  pose proof (Z.div_mod f 4 ltac:(lia)) as E.
  pose proof (Z.mod_pos_bound f 4 ltac:(lia)) as B.
  symmetry. apply (Z.mod_unique _ _ (f / 4)); lia.
Qed.

Lemma slot_offset_of f : slot_offset (f mod 4 * 2).
Proof.
  pose proof (Z.mod_pos_bound f 4 ltac:(lia)) as B. unfold slot_offset. lia.
Qed.

Lemma get_state_field p m f :
  0 <= f < MAX_FRAME ->
  get_state p m f = decode (field (m (bitmap p + f / 4)) (f mod 4 * 2)).
Proof.
  intros H. unfold get_state.
  rewrite byte_index_eq, bit_offset_eq by exact H.
  fold (field (m (bitmap p + f / 4)) (f mod 4 * 2)).
  rewrite to_uchar_small; [reflexivity |].
  pose proof (field_range (m (bitmap p + f / 4)) (f mod 4 * 2)). lia.
Qed.

Lemma set_state_store p m f s x :
  0 <= f < MAX_FRAME ->
  set_state p m f s x
  = if x =? bitmap p + f / 4
    then poke (m x) (f mod 4 * 2) (code s)
    else m x.
Proof.
  intros H. unfold set_state.
  rewrite byte_index_eq, bit_offset_eq by exact H.
  unfold store. destruct (Z.eqb_spec x (bitmap p + f / 4)) as [-> | Hne].
  - rewrite Z.eqb_refl. destruct s; reflexivity.
  - reflexivity.
Qed.

Lemma get_set_same p m f s :
  0 <= f < MAX_FRAME -> get_state p (set_state p m f s) f = Ok s.
Proof.
  intros H. rewrite get_state_field, set_state_store by exact H.
  rewrite Z.eqb_refl, field_poke_same.
  - apply decode_code.
  - apply slot_offset_of.
  - apply code_range.
Qed.

Lemma get_set_other p m f s g :
  0 <= f < MAX_FRAME -> 0 <= g < MAX_FRAME -> g <> f ->
  get_state p (set_state p m f s) g = get_state p m g.
Proof.
  intros Hf Hg Hne. rewrite !get_state_field, set_state_store by assumption.
  destruct (Z.eqb_spec (bitmap p + g / 4) (bitmap p + f / 4)) as [E | E];
    [| reflexivity].
  rewrite E. rewrite field_poke_other; [reflexivity | apply slot_offset_of ..| |].
  - pose proof (Z.div_mod f 4 ltac:(lia)). pose proof (Z.div_mod g 4 ltac:(lia)).
    lia.
  - apply code_range.
Qed.

Lemma set_state_other_byte p m f s x :
  0 <= f < MAX_FRAME -> x <> bitmap p + f / 4 -> set_state p m f s x = m x.
Proof.
  intros H Hne. rewrite set_state_store by exact H.
  destruct (Z.eqb_spec x (bitmap p + f / 4)); [contradiction | reflexivity].
Qed.

(** ** Reservation *)

Lemma all_state_empty p m lo hi s : hi <= lo -> all_state p m lo hi s.
Proof. intros H g Hg. lia. Qed.

Lemma mark_used_ok k : forall c p m,
  0 <= c -> c + Z.of_nat k < MAX_FRAME ->
  all_state p m c (c + Z.of_nat k) Free ->
  exists m',
    mark_used k c p m = Done tt m'
    /\ all_state p m' c (c + Z.of_nat k) Used
    /\ same_outside p m m' c (c + Z.of_nat k)
    /\ same_bytes_outside p m m' c (c + Z.of_nat k).
Proof.
  induction k as [| k IH]; intros c p m Hc Hk Hfree.
  - exists m. split; [reflexivity |]. split; [| split].
    + apply all_state_empty. lia.
    + intros g _ _. reflexivity.
    + intros x _. reflexivity.
  - simpl mark_used. unwrap.
    rewrite (Hfree c) by lia.
    destruct (IH (c + 1) p (set_state p m c Used)) as (m' & E & Hu & Ho & Hb).
    + lia.
    + lia.
    + intros g Hg. rewrite get_set_other by lia. apply Hfree. lia.
    + exists m'. split; [exact E |]. split; [| split].
      * intros g Hg. destruct (Z.eq_dec g c) as [-> | Hne].
        -- rewrite Ho by lia. apply get_set_same. lia.
        -- apply Hu. lia.
      * intros g Hg Hout. rewrite Ho by lia. apply get_set_other; lia.
      * intros x Hx. rewrite Hb.
        -- apply set_state_other_byte; [lia |]. apply Hx. lia.
        -- intros g Hg. apply Hx. lia.
Qed.

Lemma mark_inaccessible_ok p m b n :
  pool_bounds p -> 0 <= b -> 1 <= n ->
  b + n <= base_frame_no p + nframes p ->
  all_state p m b (b + n) Free ->
  exists m',
    mark_inaccessible p m b n
    = Done tt (set_nFreeFrames (to_ulong (nFreeFrames p - n)) p, m')
    /\ get_state p m' b = Ok HoS
    /\ all_state p m' (b + 1) (b + n) Used
    /\ same_outside p m m' b (b + n)
    /\ same_bytes_outside p m m' b (b + n).
Proof.
  intros (Hb0 & Hn0 & Hmax & Hfc) Hb Hn Hin Hfree.
  unfold mark_inaccessible. rewrite (Hfree b) by lia. unwrap.
  destruct (Z.leb_spec (b + n) (base_frame_no p + nframes p)); [| lia].
  replace (b + n - (b + 1)) with (n - 1) by lia.
  destruct (mark_used_ok (Z.to_nat (n - 1)) (b + 1) p (set_state p m b HoS))
    as (m' & E & Hu & Ho & Hby).
  - lia.
  - rewrite Z2Nat.id by lia. lia.
  - rewrite Z2Nat.id by lia. intros g Hg.
    rewrite get_set_other by lia. apply Hfree. lia.
  - rewrite Z2Nat.id in Hu, Ho, Hby by lia.
    replace (b + 1 + (n - 1)) with (b + n) in Hu, Ho, Hby by lia.
    exists m'. rewrite E. split; [reflexivity |]. split; [| split; [| split]].
    + rewrite Ho by lia. apply get_set_same. lia.
    + exact Hu.
    + intros g Hg Hout. rewrite Ho by lia. apply get_set_other; lia.
    + intros x Hx. rewrite Hby.
      * apply set_state_other_byte; [lia |]. apply Hx. lia.
      * intros g Hg. apply Hx. lia.
Qed.

(** ** The first-fit scan *)

Section Scan.

Variables (p : Pool) (m : Memory) (n : Z).
Hypothesis Hp : pool_bounds p.


Section Leftmost.

(** [h] heads the leftmost run of [n] free frames, and no frame before
    it holds an invalid code. *)
Variable h : Z.
Hypothesis Hn : 1 <= n.
Hypothesis Hlo : base_frame_no p <= h.
Hypothesis Hhi : h + n <= base_frame_no p + nframes p.
Hypothesis Hrun : all_state p m h (h + n) Free.
Hypothesis Hleft :
  forall h', base_frame_no p <= h' < h ->
             exists g, h' <= g < h' + n /\ get_state p m g <> Ok Free.
Hypothesis Hvalid :
  forall g, base_frame_no p <= g < h -> exists st, get_state p m g = Ok st.

Lemma not_free_before_run c st :
  c < h + n -> get_state p m c = Ok st -> st <> Free -> c < h.
Proof using Hrun.
  intros Hc Hst Hne. destruct (Z.lt_ge_cases c h) as [Hlt | Hge]; [exact Hlt |].
  rewrite (Hrun c) in Hst by lia. congruence.
Qed.

(** The scan stops at the leftmost run: from any point of the scan at or
    before the end of that run, with [j] free frames counted so far, it
    reserves the run that starts at [h]. *)
Lemma scan_first_fit :
  forall k c first j,
    Z.of_nat k = base_frame_no p + nframes p - c ->
    base_frame_no p <= c - j -> c - j <= h -> 0 <= j < n -> c < h + n ->
    (0 < j -> first = c - j) ->
    all_state p m (c - j) c Free ->
    scan k c first j n p m
    = match mark_inaccessible p m h n with
      | Done _ s => Done h s
      | Halt e s => Halt e s
      end.
Proof using Hp Hn Hlo Hhi Hrun Hleft Hvalid.
  destruct Hp as (Hb0 & Hn0 & Hmax & Hfc).
  induction k as [| k IH]; intros c first j Hk Hbase Hcand Hj Hc Hfirst Hfree.
  - simpl in Hk. lia.
  - simpl scan.
    assert (Hst : exists st, get_state p m c = Ok st).
    { destruct (Z.lt_ge_cases c h) as [Hlt | Hge].
      - apply Hvalid. lia.
      - exists Free. apply Hrun. lia. }
    destruct Hst as (st & Hst). rewrite Hst.
    assert (Hnext : Z.of_nat k = base_frame_no p + nframes p - (c + 1)) by lia.
    destruct st.
    + assert (Hfirst' : (if j =? 0 then to_uint c else first) = c - j).
      { destruct (Z.eqb_spec j 0) as [-> | Hne].
        - unwrap. lia.
        - apply Hfirst. lia. }
      rewrite Hfirst'. unwrap.
      destruct (Z.eqb_spec (j + 1) n) as [Hfull | Hmore].
      * assert (Hh : c - j = h).
        { destruct (Z.eq_dec (c - j) h) as [E | Hne]; [exact E |].
          destruct (Hleft (c - j)) as (g & Hg & Hbad); [lia |].
          exfalso. apply Hbad.
          destruct (Z.eq_dec g c) as [-> | Hgc]; [exact Hst |].
          apply Hfree. lia. }
        rewrite Hh, Hfull. reflexivity.
      * replace (c - j) with (c + 1 - (j + 1)) by lia.
        apply IH; try lia.
        intros g Hg. destruct (Z.eq_dec g c) as [-> | Hgc]; [exact Hst |].
        apply Hfree. lia.
    + assert (c < h) by (apply (not_free_before_run c Used); [lia | exact Hst | discriminate]).
      unwrap. apply IH; try lia.
      apply all_state_empty. lia.
    + assert (c < h) by (apply (not_free_before_run c HoS); [lia | exact Hst | discriminate]).
      unwrap. apply IH; try lia.
      apply all_state_empty. lia.
Qed.

End Leftmost.

End Scan.

Lemma get_frames_first_fit p m n h :
  pool_bounds p -> 1 <= n <= nFreeFrames p ->
  base_frame_no p <= h -> h + n <= base_frame_no p + nframes p ->
  all_state p m h (h + n) Free ->
  (forall h', base_frame_no p <= h' < h ->
              exists g, h' <= g < h' + n /\ get_state p m g <> Ok Free) ->
  (forall g, base_frame_no p <= g < h -> exists st, get_state p m g = Ok st) ->
  exists m',
    get_frames p m n
    = Done h (set_nFreeFrames (nFreeFrames p - n) p, m')
    /\ get_state p m' h = Ok HoS
    /\ all_state p m' (h + 1) (h + n) Used
    /\ same_outside p m m' h (h + n)
    /\ same_bytes_outside p m m' h (h + n).
Proof.
  intros Hp Hn Hlo Hhi Hrun Hleft Hvalid.
  pose proof Hp as (Hb0 & Hn0 & Hmax & Hfc).
  destruct (mark_inaccessible_ok p m h n) as (m' & E & Hpost); try assumption; try lia.
  exists m'. split; [| exact Hpost].
  unfold get_frames.
  destruct (Z.leb_spec n (nFreeFrames p)); [| lia].
  destruct (Z.leb_spec n (nframes p)); [| lia].
  unwrap.
  rewrite (scan_first_fit p m n Hp h); try assumption; try lia.
  - rewrite E. rewrite (to_ulong_small (nFreeFrames p - n)) by lia. reflexivity.
  - apply all_state_empty. lia.
Qed.


(** ** Release *)

Lemma get_state_err p m f e : get_state p m f = Err e -> e = InvalidState.
Proof.
  unfold get_state.
  repeat match goal with
         | |- context [match ?x with _ => _ end] => destruct x
         end; intros H; inversion H; reflexivity.
Qed.

Lemma same_but_free_refl p : same_but_free p p.
Proof. destruct p. reflexivity. Qed.


(** The inner loop frees exactly the [Used] frames that follow. *)
Lemma release_run_ok k : forall c p m j,
  0 <= c -> 0 <= j <= Z.of_nat k -> c + Z.of_nat k < MAX_FRAME ->
  all_state p m c (c + j) Used ->
  (Z.of_nat k = j \/ exists st, get_state p m (c + j) = Ok st /\ st <> Used) ->
  0 <= nFreeFrames p -> nFreeFrames p + j < 2 ^ 64 ->
  exists p' m',
    release_run k c p m = Done tt (p', m')
    /\ same_but_free p p' /\ nFreeFrames p' = nFreeFrames p + j
    /\ all_state p m' c (c + j) Free
    /\ same_outside p m m' c (c + j)
    /\ same_bytes_outside p m m' c (c + j).
Proof.
  induction k as [| k IH]; intros c p m j Hc Hj Hk Hused Hstop Hf0 Hf1.
  - assert (j = 0) by lia. subst j.
    exists p, m. split; [reflexivity |].
    split; [apply same_but_free_refl |]. split; [lia |].
    split; [apply all_state_empty; lia |].
    split; [intros g _ _; reflexivity | intros x _; reflexivity].
  - simpl release_run.
    destruct (Z.eq_dec j 0) as [-> | Hj0].
    + destruct Hstop as [Hbad | (st & Hst & Hne)]; [lia |].
      rewrite Z.add_0_r in Hst. rewrite Hst.
      exists p, m.
      split; [destruct st; [reflexivity | contradiction | reflexivity] |].
      split; [apply same_but_free_refl |]. split; [lia |].
      split; [apply all_state_empty; lia |].
      split; [intros g _ _; reflexivity | intros x _; reflexivity].
    + rewrite (Hused c) by lia. unwrap.
      destruct (IH (c + 1) (set_nFreeFrames (nFreeFrames p + 1) p)
                   (set_state p m c Free) (j - 1))
        as (p' & m' & E & Hsame & Hcount & Hfree & Ho & Hb).
      * lia.
      * lia.
      * lia.
      * intros g Hg. change (get_state p (set_state p m c Free) g = Ok Used).
        rewrite get_set_other by lia. apply Hused. lia.
      * destruct Hstop as [Hk' | (st & Hst & Hne)]; [left; lia | right].
        exists st. split; [| exact Hne].
        change (get_state p (set_state p m c Free) (c + 1 + (j - 1)) = Ok st).
        rewrite get_set_other by lia.
        replace (c + 1 + (j - 1)) with (c + j) by lia. exact Hst.
      * simpl. lia.
      * simpl. lia.
      * replace (c + 1 + (j - 1)) with (c + j) in Hfree, Ho, Hb by lia.
        change (all_state p m' (c + 1) (c + j) Free) in Hfree.
        change (same_outside p (set_state p m c Free) m' (c + 1) (c + j)) in Ho.
        change (same_bytes_outside p (set_state p m c Free) m' (c + 1) (c + j))
          in Hb.
        exists p', m'. split; [exact E |].
        split; [| split; [| split; [| split]]].
        -- unfold same_but_free in *. rewrite Hsame at 1. reflexivity.
        -- rewrite Hcount. simpl. lia.
        -- intros g Hg. destruct (Z.eq_dec g c) as [-> | Hgc].
           ++ rewrite Ho by lia. apply get_set_same. lia.
           ++ apply Hfree. lia.
        -- intros g Hg Hout. rewrite Ho by lia. apply get_set_other; lia.
        -- intros x Hx. rewrite Hb.
           ++ apply set_state_other_byte; [lia |]. apply Hx. lia.
           ++ intros g Hg. apply Hx. lia.
Qed.

(** Whatever the inner loop meets, it writes only bitmap bytes of the
    frames it walks over, changes only the free count of the pool object,
    and can halt only on an invalid code. *)
Lemma release_run_frame k : forall c p m,
  0 <= c -> c + Z.of_nat k < MAX_FRAME ->
  exists p' m',
    state_of (release_run k c p m) = (p', m')
    /\ same_but_free p p'
    /\ same_outside p m m' c (c + Z.of_nat k)
    /\ same_bytes_outside p m m' c (c + Z.of_nat k)
    /\ (release_run k c p m = Done tt (p', m')
        \/ release_run k c p m = Halt InvalidState (p', m')).
Proof.
  induction k as [| k IH]; intros c p m Hc Hk.
  - exists p, m. split; [reflexivity |]. split; [apply same_but_free_refl |].
    split; [intros g _ _; reflexivity |].
    split; [intros x _; reflexivity | left; reflexivity].
  - simpl release_run.
    destruct (get_state p m c) as [st | e] eqn:Hst.
    + destruct st.
      1,3: exists p, m; (split; [reflexivity |]);
           (split; [apply same_but_free_refl |]);
           (split; [intros g _ _; reflexivity |]);
           (split; [intros x _; reflexivity | left; reflexivity]).
      unwrap.
      destruct (IH (c + 1) (set_nFreeFrames (to_ulong (nFreeFrames p + 1)) p)
                   (set_state p m c Free))
        as (p' & m' & E & Hsame & Ho & Hb & Hres); [lia | lia |].
      exists p', m'. split; [exact E |].
      split; [| split; [| split]].
      * unfold same_but_free in *. rewrite Hsame at 1. reflexivity.
      * intros g Hg Hout.
        change (same_outside p (set_state p m c Free) m' (c + 1)
                  (c + 1 + Z.of_nat k)) in Ho.
        rewrite Ho by lia. apply get_set_other; lia.
      * intros x Hx. rewrite Hb.
        -- apply set_state_other_byte; [lia |]. apply Hx. lia.
        -- intros g Hg. apply Hx. lia.
      * exact Hres.
    + apply get_state_err in Hst as ->.
      exists p, m. split; [reflexivity |]. split; [apply same_but_free_refl |].
      split; [intros g _ _; reflexivity |].
      split; [intros x _; reflexivity | right; reflexivity].
Qed.

(** ** The registry walk *)

Lemma owns_spec p f :
  pool_bounds p ->
  owns p f = true <-> base_frame_no p <= f < base_frame_no p + nframes p.
Proof.
  intros (Hb0 & Hn0 & Hmax & Hfc). unfold owns. unwrap.
  rewrite andb_true_iff, Z.leb_le, Z.ltb_lt. reflexivity.
Qed.

Lemma release_walk_owner fuel : forall cur f w a,
  find_owner fuel cur f (objs w) = Some a ->
  exists p, objs w !! a = Some p /\ owns p f = true
            /\ release_walk fuel cur f w = release_in a p f w.
Proof.
  induction fuel as [| fuel IH]; intros cur f w a Hfind.
  - destruct cur; discriminate.
  - destruct cur as [c |]; [| discriminate].
    simpl in Hfind. simpl release_walk.
    destruct (objs w !! c) as [p |] eqn:Hc; [| discriminate].
    destruct (owns p f) eqn:Ho.
    + injection Hfind as <-. exists p. auto.
    + apply IH. exact Hfind.
Qed.


(** Releasing the head of a run of [n] frames: the frame and the [n - 1]
    [Used] frames after it become [Free]. *)
Lemma release_in_run a p f n w :
  pool_bounds p -> nFreeFrames p + n < 2 ^ 64 -> 1 <= n ->
  base_frame_no p <= f -> f + n <= base_frame_no p + nframes p ->
  all_state p (mem w) (f + 1) (f + n) Used ->
  (f + n = base_frame_no p + nframes p
   \/ exists st, get_state p (mem w) (f + n) = Ok st /\ st <> Used) ->
  exists m',
    release_in a p f w
    = Done tt (mkWorld m' (<[a := set_nFreeFrames (nFreeFrames p + n) p]> (objs w))
                       (frame_pools_list w))
    /\ all_state p m' f (f + n) Free
    /\ same_outside p (mem w) m' f (f + n).
Proof.
  intros (Hb0 & Hn0 & Hmax & Hfc) Hfn Hn Hlo Hhi Hused Hstop.
  unfold release_in. unwrap.
  destruct (release_run_ok (Z.to_nat (base_frame_no p + nframes p - (f + 1)))
              (f + 1) (set_nFreeFrames (nFreeFrames p + 1) p)
              (set_state p (mem w) f Free) (n - 1))
    as (p' & m' & E & Hsame & Hcount & Hfree & Ho & Hb).
  - lia.
  - rewrite Z2Nat.id by lia. lia.
  - rewrite Z2Nat.id by lia. lia.
  - intros g Hg. change (get_state p (set_state p (mem w) f Free) g = Ok Used).
    rewrite get_set_other by lia. apply Hused. lia.
  - rewrite Z2Nat.id by lia.
    destruct Hstop as [Hend | (st & Hst & Hne)]; [left; lia | right].
    exists st. split; [| exact Hne].
    change (get_state p (set_state p (mem w) f Free) (f + 1 + (n - 1)) = Ok st).
    rewrite get_set_other by lia.
    replace (f + 1 + (n - 1)) with (f + n) by lia. exact Hst.
  - simpl. lia.
  - simpl. lia.
  - replace (f + 1 + (n - 1)) with (f + n) in Hfree, Ho, Hb by lia.
    change (all_state p m' (f + 1) (f + n) Free) in Hfree.
    change (same_outside p (set_state p (mem w) f Free) m' (f + 1) (f + n)) in Ho.
    exists m'. rewrite E. split; [| split].
    + do 3 f_equal. rewrite Hsame. simpl in Hcount. rewrite Hcount.
      unfold set_nFreeFrames. simpl. f_equal. lia.
    + intros g Hg. destruct (Z.eq_dec g f) as [-> | Hgf].
      * rewrite Ho by lia. apply get_set_same. lia.
      * apply Hfree. lia.
    + intros g Hg Hout. rewrite Ho by lia. apply get_set_other; lia.
Qed.

(** Whatever the frames hold, releasing [f] in the pool that owns it
    writes only bitmap bytes of that pool's frames from [f] on, changes
    only the free count of that pool object, and leaves [f] free. *)
Lemma release_in_frame a p f w :
  pool_bounds p ->
  base_frame_no p <= f < base_frame_no p + nframes p ->
  exists p' m',
    let w' := mkWorld m' (<[a := p']> (objs w)) (frame_pools_list w) in
    (release_in a p f w = Done tt w' \/ release_in a p f w = Halt InvalidState w')
    /\ same_but_free p p'
    /\ get_state p m' f = Ok Free
    /\ same_outside p (mem w) m' f (base_frame_no p + nframes p)
    /\ same_bytes_outside p (mem w) m' f (base_frame_no p + nframes p).
Proof.
  intros (Hb0 & Hn0 & Hmax & Hfc) Hf.
  unfold release_in.
  rewrite (to_ulong_small (f + 1)) by bounds.
  rewrite (to_ulong_small (base_frame_no p + nframes p)) by bounds.
  destruct (release_run_frame (Z.to_nat (base_frame_no p + nframes p - (f + 1)))
              (f + 1) (set_nFreeFrames (to_ulong (nFreeFrames p + 1)) p)
              (set_state p (mem w) f Free))
    as (p' & m' & E & Hsame & Ho & Hb & Hres).
  - lia.
  - rewrite Z2Nat.id by lia. lia.
  - rewrite Z2Nat.id in Ho, Hb by lia.
    replace (f + 1 + (base_frame_no p + nframes p - (f + 1)))
      with (base_frame_no p + nframes p) in Ho, Hb by lia.
    change (same_outside p (set_state p (mem w) f Free) m' (f + 1)
              (base_frame_no p + nframes p)) in Ho.
    change (same_bytes_outside p (set_state p (mem w) f Free) m' (f + 1)
              (base_frame_no p + nframes p)) in Hb.
    exists p', m'. cbv zeta. split; [| split; [| split; [| split]]].
    + destruct Hres as [-> | ->]; [left | right]; reflexivity.
    + unfold same_but_free in *. rewrite Hsame at 1. reflexivity.
    + rewrite Ho by lia. apply get_set_same. lia.
    + intros g Hg Hout. rewrite Ho by lia. apply get_set_other; lia.
    + intros x Hx. rewrite Hb.
      * apply set_state_other_byte; [lia |]. apply Hx. lia.
      * intros g Hg. apply Hx. lia.
Qed.

(** * The bitmap codec (C3) *)




(** * First fit (C7) *)

Lemma result_eq_dec (a b : result FrameState) : {a = b} + {a <> b}.
Proof. decide equality; [decide equality | decide equality]. Qed.

(** A property that fails somewhere in a range fails at a definite
    frame, when the property is decidable. *)
Lemma all_or_first_miss (P : Z -> Prop) (Pdec : forall g, {P g} + {~ P g}) :
  forall k lo,
    (forall g, lo <= g < lo + Z.of_nat k -> P g)
    \/ (exists g, lo <= g < lo + Z.of_nat k /\ ~ P g).
Proof.
  induction k as [| k IH]; intros lo.
  - left. intros g Hg. lia.
  - destruct (Pdec lo) as [Hlo | Hlo].
    + destruct (IH (lo + 1)) as [Hall | (g & Hg & Hbad)].
      * left. intros g Hg. destruct (Z.eq_dec g lo) as [-> | Hne]; [exact Hlo |].
        apply Hall. lia.
      * right. exists g. split; [lia | exact Hbad].
    + right. exists lo. split; [lia | exact Hlo].
Qed.

Lemma least_in_range (P : Z -> Prop) :
  (forall g, P g \/ ~ P g) ->
  forall k lo,
    (exists h, lo <= h < lo + Z.of_nat k /\ P h) ->
    exists h, lo <= h < lo + Z.of_nat k /\ P h
              /\ forall h', lo <= h' < h -> ~ P h'.
Proof.
  intros Pdec. induction k as [| k IH]; intros lo (h0 & Hh0 & Hp0).
  - lia.
  - destruct (Pdec lo) as [Hlo | Hlo].
    + exists lo. split; [lia |]. split; [exact Hlo |]. intros h' Hh'. lia.
    + destruct (IH (lo + 1)) as (h & Hh & Hp & Hleast).
      * exists h0. split; [| exact Hp0].
        destruct (Z.eq_dec h0 lo) as [-> | Hne]; [contradiction | lia].
      * exists h. split; [lia |]. split; [exact Hp |].
        intros h' Hh'. destruct (Z.eq_dec h' lo) as [-> | Hne]; [exact Hlo |].
        apply Hleast. lia.
Qed.

Lemma free_run_decidable p m n h : 0 <= n -> free_run p m n h \/ ~ free_run p m n h.
Proof.
  intros Hn. unfold free_run.
  destruct (Z_le_dec (base_frame_no p) h) as [H1 | H1]; [| right; tauto].
  destruct (Z_le_dec (h + n) (base_frame_no p + nframes p)) as [H2 | H2];
    [| right; tauto].
  destruct (all_or_first_miss (fun g => get_state p m g = Ok Free)
              (fun g => result_eq_dec _ _) (Z.to_nat n) h) as [Hall | (g & Hg & Hbad)].
  - left. rewrite Z2Nat.id in Hall by lia. auto.
  - right. intros (_ & _ & Hall). rewrite Z2Nat.id in Hg by lia.
    apply Hbad, Hall, Hg.
Qed.

(** C7: whenever the pool contains a run of [n] consecutive free frames
    ([n] at least 1 and at most the cached free count, every frame of the
    pool holding a valid state), [get_frames (n)] returns the head index
    of the leftmost such run; in particular, with the frames [0, 3) and
    [10, 20) free and the rest used, [get_frames (5)] returns 10. *)
Theorem get_frames_returns_leftmost_run :
  (forall p m n,
      pool_bounds p -> 1 <= n <= nFreeFrames p -> valid_states p m ->
      (exists h0, free_run p m n h0) ->
      exists h s,
        get_frames p m n = Done h s
        /\ free_run p m n h
        /\ forall h', free_run p m n h' -> h <= h')
  /\ (objs first_fit_world !! 1%nat = Some first_fit_pool
      /\ range_all 3 0 (reads first_fit_pool first_fit_memory Free) = true
      /\ range_all 7 3 (fun g => negb (reads first_fit_pool first_fit_memory Free g))
         = true
      /\ range_all 10 10 (reads first_fit_pool first_fit_memory Free) = true
      /\ exists w', call_get_frames 1 5 first_fit_world = Done 10 w').
Proof.
  split.
  - intros p m n Hp Hn Hvalid (h0 & Hrun0).
    pose proof Hp as (Hb0 & Hn0 & Hmax & Hfc).
    destruct (least_in_range (free_run p m n)
                (fun h => free_run_decidable p m n h ltac:(lia))
                (Z.to_nat (nframes p)) (base_frame_no p))
      as (h & Hh & Hrun & Hleast).
    { exists h0. split; [| exact Hrun0].
      destruct Hrun0 as (? & ? & _). rewrite Z2Nat.id; lia. }
    pose proof Hrun as (Hlo & Hhi & Hfree).
    destruct (get_frames_first_fit p m n h) as (m' & E & _); try assumption.
    + intros h' Hh'.
      destruct (all_or_first_miss (fun g => get_state p m g = Ok Free)
                  (fun g => result_eq_dec _ _) (Z.to_nat n) h')
        as [Hall | (g & Hg & Hbad)].
      * exfalso. apply (Hleast h' Hh').
        rewrite Z2Nat.id in Hall by lia.
        split; [lia |]. split; [lia | exact Hall].
      * rewrite Z2Nat.id in Hg by lia. exists g. split; assumption.
    + intros g Hg. apply Hvalid. lia.
    + exists h, (set_nFreeFrames (nFreeFrames p - n) p, m').
      split; [exact E |]. split; [exact Hrun |].
      intros h' Hrun'. destruct (Z.le_gt_cases h h') as [Hle | Hgt]; [exact Hle |].
      exfalso. apply (Hleast h'); [| exact Hrun'].
      destruct Hrun' as (? & _). lia.
  - split; [vm_compute; reflexivity |].
    split; [vm_compute; reflexivity |].
    split; [vm_compute; reflexivity |].
    split; [vm_compute; reflexivity |].
    eexists. vm_compute. reflexivity.
Qed.

Lemma range_all_spec k : forall lo f,
  range_all k lo f = true ->
  forall g, lo <= g < lo + Z.of_nat k -> f g = true.
Proof.
  induction k as [| k IH]; intros lo f H g Hg.
  - lia.
  - simpl in H. apply andb_true_iff in H as (H0 & H1).
    destruct (Z.eq_dec g lo) as [-> | Hne]; [exact H0 |].
    apply (IH (lo + 1)); [exact H1 | lia].
Qed.

Lemma reads_spec p m s g : reads p m s g = true -> get_state p m g = Ok s.
Proof.
  unfold reads. destruct (get_state p m g) as [[] | e], s;
    intros H; try discriminate H; reflexivity.
Qed.

Lemma all_state_check p m s lo k :
  range_all k lo (reads p m s) = true ->
  all_state p m lo (lo + Z.of_nat k) s.
Proof.
  intros H g Hg. apply reads_spec. exact (range_all_spec k lo _ H g Hg).
Qed.

Lemma valid_states_check p m :
  range_all (Z.to_nat (nframes p)) (base_frame_no p) (is_valid p m) = true ->
  0 <= nframes p -> valid_states p m.
Proof.
  intros H Hn g Hg.
  pose proof (range_all_spec _ _ _ H g) as Hv. rewrite Z2Nat.id in Hv by lia.
  specialize (Hv Hg). unfold is_valid in Hv.
  destruct (get_state p m g) as [st | e]; [exists st; reflexivity | discriminate].
Qed.

Lemma first_fit_pool_bounds : pool_bounds first_fit_pool.
Proof. vm_compute. repeat split; discriminate. Qed.

(** First fit on the pool with [0, 3) and [10, 20) free; the run that
    starts at 12 shows that there is one. *)
Lemma get_frames_returns_leftmost_run_witness :
  exists h s,
    get_frames first_fit_pool first_fit_memory 5 = Done h s
    /\ free_run first_fit_pool first_fit_memory 5 h
    /\ forall h', free_run first_fit_pool first_fit_memory 5 h' -> h <= h'.
Proof.
  apply (proj1 get_frames_returns_leftmost_run first_fit_pool first_fit_memory 5).
  - exact first_fit_pool_bounds.
  - simpl. lia.
  - apply valid_states_check; [vm_compute; reflexivity | simpl; lia].
  - exists 12. split; [simpl; lia |]. split; [simpl; lia |].
    apply (all_state_check first_fit_pool first_fit_memory Free 12 5).
    vm_compute. reflexivity.
Defined.

(** * Allocate, then release (C9) *)





(** * Ownership resolution (C10) *)

Lemma chain_two fuel (o : gmap nat Pool) x y px :
  chain (S fuel) (Some x) o = [x; y] -> o !! x = Some px ->
  next px = Some y /\ exists fuel', fuel = S fuel'.
Proof.
  simpl. intros H Hx. rewrite Hx in H. injection H as H.
  destruct fuel as [| fuel']; [discriminate H |].
  destruct (next px) as [z |]; [| discriminate H].
  simpl in H. injection H as -> _. split; [reflexivity | eauto].
Qed.

Lemma chain_head fuel cur (o : gmap nat Pool) x l :
  chain fuel cur o = x :: l -> cur = Some x.
Proof.
  destruct fuel, cur; simpl; intros H; try discriminate H.
  injection H as -> _. reflexivity.
Qed.

(** C10: with exactly two pools registered, over [0, 100) and
    [100, 200), [release_frames (150)] on the head frame 150 changes
    nothing but bitmap bytes of the second pool and the second pool's
    free count: the first pool's object, and with it its free count, and
    every byte of the first pool's bitmap are what they were.  (The
    bitmaps start on frame boundaries, where the constructor puts them.) *)
Theorem release_frames_touches_owner_only
    (w : World) (a b : nat) (pa pb : Pool) :
  registry w = [a; b] \/ registry w = [b; a] ->
  objs w !! a = Some pa -> objs w !! b = Some pb ->
  base_frame_no pa = 0 -> nframes pa = 100 ->
  base_frame_no pb = 100 -> nframes pb = 100 ->
  0 <= nFreeFrames pb < 2 ^ 64 ->
  bitmap pa mod FRAME_SIZE = 0 -> bitmap pb mod FRAME_SIZE = 0 ->
  get_state pb (mem w) 150 = Ok HoS ->
  exists pb' w',
    (release_frames 150 w = Done tt w'
     \/ release_frames 150 w = Halt InvalidState w')
    /\ objs w' = <[b := pb']> (objs w) /\ same_but_free pb pb'
    /\ frame_pools_list w' = frame_pools_list w
    /\ objs w' !! a = Some pa
    /\ free_count a w' = free_count a w
    /\ (forall g, 0 <= g < 100 ->
                  mem w' (bitmap pa + g / 4) = mem w (bitmap pa + g / 4))
    /\ (forall g, 0 <= g < 100 -> get_state pa (mem w') g = get_state pa (mem w) g)
    /\ (forall x, (forall g, 150 <= g < 200 -> x <> bitmap pb + g / 4) ->
                  mem w' x = mem w x)
    /\ get_state pb (mem w') 150 = Ok Free.
Proof.
  intros Hreg Ha Hb Hba Hna Hbb Hnb Hfc Hala Halb Hhead.
  assert (Hab : a <> b).
  { intros ->. rewrite Ha in Hb. injection Hb as ->. lia. }
  assert (Hpb : pool_bounds pb).
  { unfold pool_bounds. rewrite Hbb, Hnb. pose proof MAX_FRAME_eq. lia. }
  assert (Howns_b : owns pb 150 = true).
  { apply owns_spec; [exact Hpb | lia]. }
  assert (Howns_a : owns pa 150 = false).
  { unfold owns. rewrite Hba, Hna. reflexivity. }
  assert (Hwalk : release_frames 150 w = release_in b pb 150 w).
  { unfold release_frames, registry in *. destruct Hreg as [Hreg | Hreg].
    - pose proof (chain_head _ _ _ _ _ Hreg) as Hhd.
      rewrite Hhd in *.
      destruct (chain_two _ _ _ _ _ Hreg Ha) as (Hnext & fuel' & Hfuel).
      rewrite Hfuel. simpl. rewrite Ha, Howns_a, Hnext, Hb, Howns_b. reflexivity.
    - pose proof (chain_head _ _ _ _ _ Hreg) as Hhd.
      rewrite Hhd. simpl. rewrite Hb, Howns_b. reflexivity. }
  destruct (release_in_frame b pb 150 w Hpb) as (pb' & m' & Hres & Hsame & Hfree & Ho & Hby);
    [lia |].
  cbv zeta in Hres. rewrite Hbb, Hnb in Ho, Hby.
  exists pb', (mkWorld m' (<[b := pb']> (objs w)) (frame_pools_list w)).
  rewrite Hwalk. split; [exact Hres |]. simpl objs. simpl mem. simpl frame_pools_list.
  assert (Hbytes : forall g, 0 <= g < 100 ->
                             m' (bitmap pa + g / 4) = mem w (bitmap pa + g / 4)).
  { intros g Hg. apply Hby. intros g' Hg' Heq.
    assert (0 <= g / 4 < 25) by (split; [apply Z.div_pos | apply Z.div_lt_upper_bound]; lia).
    assert (37 <= g' / 4 < 50)
      by (split; [apply Z.div_le_lower_bound | apply Z.div_lt_upper_bound]; lia).
    unfold FRAME_SIZE in *.
    pose proof (Z.div_mod (bitmap pa) 4096 ltac:(lia)).
    pose proof (Z.div_mod (bitmap pb) 4096 ltac:(lia)).
    lia. }
  split; [reflexivity |]. split; [exact Hsame |]. split; [reflexivity |].
  assert (Hobj : <[b := pb']> (objs w) !! a = Some pa)
    by (rewrite lookup_insert_ne by congruence; exact Ha).
  split; [exact Hobj |].
  split; [unfold free_count; simpl objs; rewrite Hobj, Ha; reflexivity |].
  split; [exact Hbytes |].
  split.
  - intros g Hg. pose proof MAX_FRAME_eq.
    rewrite !get_state_field by lia. rewrite Hbytes by lia. reflexivity.
  - split; [| exact Hfree].
    intros x Hx. apply Hby. exact Hx.
Qed.

(** The two pools at the addresses 1 and 2, the run 150..152 released. *)
Lemma release_frames_touches_owner_only_witness :
  exists pb' w',
    (release_frames 150 two_pools_world = Done tt w'
     \/ release_frames 150 two_pools_world = Halt InvalidState w')
    /\ objs w' = <[2%nat := pb']> (objs two_pools_world)
    /\ same_but_free pool_high pb'
    /\ frame_pools_list w' = frame_pools_list two_pools_world
    /\ objs w' !! 1%nat = Some pool_low
    /\ free_count 1 w' = free_count 1 two_pools_world
    /\ (forall g, 0 <= g < 100 ->
                  mem w' (bitmap pool_low + g / 4)
                  = mem two_pools_world (bitmap pool_low + g / 4))
    /\ (forall g, 0 <= g < 100 ->
                  get_state pool_low (mem w') g
                  = get_state pool_low (mem two_pools_world) g)
    /\ (forall x, (forall g, 150 <= g < 200 -> x <> bitmap pool_high + g / 4) ->
                  mem w' x = mem two_pools_world x)
    /\ get_state pool_high (mem w') 150 = Ok Free.
Proof.
  apply (release_frames_touches_owner_only two_pools_world 1 2 pool_low pool_high).
  - left. vm_compute. reflexivity.
  - vm_compute. reflexivity.
  - vm_compute. reflexivity.
  - reflexivity.
  - reflexivity.
  - reflexivity.
  - reflexivity.
  - simpl. lia.
  - reflexivity.
  - reflexivity.
  - vm_compute. reflexivity.
Defined.

(** * The registry (C1) *)

(** C1 fails for three pools: after the constructions of the pools at
    the addresses 1, 2 and 3, following [next] from the registry head
    visits the pools 1 and 3 only.  The constructor never moves past the
    head: it overwrites the head's [next] with the newest pool.  A frame
    of the second pool then has no owner for [release_frames]. *)
Theorem registry_loses_second_pool :
  exists w,
    three_pools = Done tt w
    /\ registry w = [1%nat; 3%nat]
    /\ is_Some (objs w !! 2%nat)
    /\ frame_state 2 8 w = Some (Ok HoS)
    /\ owner w 8 = None
    /\ release_frames 8 w = Halt UnknownFrame w.
Proof.
  eexists. split; [vm_compute; reflexivity |].
  split; [vm_compute; reflexivity |].
  split; [vm_compute; eauto |].
  split; [vm_compute; reflexivity |].
  split; vm_compute; reflexivity.
Qed.

(** * Release of a frame that heads no run (C2) *)

Lemma release_run_halt k : forall c p m e s,
  release_run k c p m = Halt e s -> e = InvalidState.
Proof.
  induction k as [| k IH]; intros c p m e s H; [discriminate H |].
  simpl in H. destruct (get_state p m c) as [[] | e'] eqn:Hst.
  - discriminate H.
  - exact (IH _ _ _ _ _ H).
  - discriminate H.
  - apply get_state_err in Hst. injection H as <- _. exact Hst.
Qed.

(** No path of [release_frames] raises [NotHeadOfSequence]. *)
Lemma release_frames_never_checks_head f w s :
  release_frames f w <> Halt NotHeadOfSequence s.
Proof.
  unfold release_frames. generalize (S (size (objs w))) (frame_pools_list w).
  intros fuel. induction fuel as [| fuel IH]; intros cur H.
  - destruct cur; discriminate H.
  - destruct cur as [a |]; [| discriminate H]. simpl in H.
    destruct (objs w !! a) as [p |]; [| discriminate H].
    destruct (owns p f); [| exact (IH _ H)].
    unfold release_in in H.
    destruct (release_run _ _ _ _) as [u [p2 m2] | e [p2 m2]] eqn:Hrun;
      [discriminate H |].
    apply release_run_halt in Hrun. subst e. discriminate H.
Qed.

(** C2 fails on the code: in the pool over [8, 16) frame 11 is [Free]
    and [release_frames (11)] returns, with the free count raised from 7
    to 8; after [get_frames (3)] has allocated the run 9..11, frame 10 is
    [Used] and [release_frames (10)] returns, having freed the frames 10
    and 11 and raised the free count from 4 to 6.  Neither call fails
    with [NotHeadOfSequence]; [release_frames] never reads the state of
    the frame it is given. *)
Theorem release_frames_accepts_non_head :
  exists w1 w2 w3 w4,
    one_pool zero_memory = Done tt w1
    /\ frame_state 1 11 w1 = Some (Ok Free) /\ free_count 1 w1 = Some 7
    /\ release_frames 11 w1 = Done tt w2
    /\ free_count 1 w2 = Some 8
    /\ call_get_frames 1 3 w1 = Done 9 w3
    /\ frame_state 1 10 w3 = Some (Ok Used) /\ free_count 1 w3 = Some 4
    /\ release_frames 10 w3 = Done tt w4
    /\ frame_state 1 9 w4 = Some (Ok HoS)
    /\ frame_state 1 10 w4 = Some (Ok Free)
    /\ frame_state 1 11 w4 = Some (Ok Free)
    /\ free_count 1 w4 = Some 6.
Proof.
  do 4 eexists.
  split; [vm_compute; reflexivity |].
  split; [vm_compute; reflexivity |].
  split; [vm_compute; reflexivity |].
  split; [vm_compute; reflexivity |].
  split; [vm_compute; reflexivity |].
  split; [vm_compute; reflexivity |].
  split; [vm_compute; reflexivity |].
  split; [vm_compute; reflexivity |].
  split; [vm_compute; reflexivity |].
  split; [vm_compute; reflexivity |].
  split; [vm_compute; reflexivity |].
  split; vm_compute; reflexivity.
Qed.

(** * Construction (C4, C8) *)

(** C4 fails on the code: the loop that marks the frames [Free] runs
    before [bitmap] is assigned, so it writes through whatever the member
    held (here a null pointer: it clears the bytes 2 and 3), not into the
    bitmap the pool then uses at [8 * FRAME_SIZE].  With memory that is
    not zero there, frame 12, which the construction does not reserve,
    reads [HeadOfSequence] right after construction, and the free count 7
    exceeds the six frames that read [Free]. *)
Theorem constructor_leaves_bitmap_uncleared :
  exists w p,
    one_pool stale_memory = Done tt w
    /\ objs w !! 1%nat = Some p
    /\ bitmap p = 8 * FRAME_SIZE /\ info_frame_no p = 8
    /\ needed_info_frames (nframes p) = 1 /\ nFreeFrames p = 7
    /\ get_state p (mem w) 8 = Ok HoS
    /\ get_state p (mem w) 12 = Ok HoS
    /\ stale_memory 2 = 255 /\ mem w 2 = 0
    /\ stale_memory 32771 = 2 /\ mem w 32771 = 2.
Proof.
  do 2 eexists.
  split; [vm_compute; reflexivity |].
  split; [vm_compute; reflexivity |].
  repeat split; vm_compute; reflexivity.
Qed.

(** C8 fails on the code, by the same defect as C4: the bootstrap
    [get_frames (1)] scans a bitmap that the constructor has not cleared.
    With a stale code [01] for frame 8 it skips the base frame and
    reserves frame 9: after construction frame 8 reads [Used], not
    [HeadOfSequence]. *)
Theorem bootstrap_misses_base_frame :
  exists w p,
    one_pool stale_base_memory = Done tt w
    /\ objs w !! 1%nat = Some p
    /\ base_frame_no p = 8 /\ needed_info_frames (nframes p) = 1
    /\ get_state p (mem w) 8 = Ok Used
    /\ get_state p (mem w) 9 = Ok HoS
    /\ nFreeFrames p = 7.
Proof.
  do 2 eexists.
  split; [vm_compute; reflexivity |].
  split; [vm_compute; reflexivity |].
  repeat split; vm_compute; reflexivity.
Qed.

(** * Conservation (C5) *)

(** C5 fails on the code, by the defect of C2: after construction the
    pool over [8, 16) satisfies conservation (7 free frames and one run
    of length 1), and one [release_frames (11)] on the free frame 11
    breaks it (8 free frames and the same run). *)
Theorem release_of_free_frame_breaks_conservation :
  exists w1 w2,
    one_pool zero_memory = Done tt w1
    /\ conserved 1 w1
    /\ release_frames 11 w1 = Done tt w2
    /\ ~ conserved 1 w2.
Proof.
  do 2 eexists.
  split; [vm_compute; reflexivity |].
  split.
  { eexists. split; [vm_compute; reflexivity | vm_compute; reflexivity]. }
  split; [vm_compute; reflexivity |].
  intros (p & Hp & Hsum). vm_compute in Hp. injection Hp as <-.
  vm_compute in Hsum. discriminate Hsum.
Qed.

(** * Reservation outside the pool (C6) *)

(** C6 fails on the code: [mark_inaccessible] checks the upper end of
    the range only.  On the pool over [8, 16), [mark_inaccessible (0, 4)]
    names four frames below the pool; it returns, marks the bitmap slots
    of the frames 0..3 and lowers the free count from 7 to 3, while the
    seven frames 9..15 of the pool still read [Free]. *)
Theorem mark_inaccessible_below_pool_succeeds :
  exists w1 w2 p2,
    one_pool zero_memory = Done tt w1
    /\ free_count 1 w1 = Some 7
    /\ call_mark_inaccessible 1 0 4 w1 = Done tt w2
    /\ objs w2 !! 1%nat = Some p2
    /\ base_frame_no p2 = 8 /\ nframes p2 = 8 /\ nFreeFrames p2 = 3
    /\ get_state p2 (mem w2) 0 = Ok HoS
    /\ range_all 3 1 (reads p2 (mem w2) Used) = true
    /\ range_all 7 9 (reads p2 (mem w2) Free) = true.
Proof.
  do 3 eexists.
  split; [vm_compute; reflexivity |].
  split; [vm_compute; reflexivity |].
  split; [vm_compute; reflexivity |].
  split; [vm_compute; reflexivity |].
  repeat split; vm_compute; reflexivity.
Qed.

(** * Supporting facts about the defects *)

(** Every registration after the first leaves the head where it is and
    overwrites the head's [next] with the newest pool. *)
Lemma register_overwrites_head_next this w h ph :
  frame_pools_list w = Some h -> objs w !! h = Some ph -> h <> this ->
  frame_pools_list (register this w) = Some h
  /\ objs (register this w) !! h = Some (set_next (Some this) ph).
Proof.
  intros Hh Hph Hne. unfold register. rewrite Hh. simpl.
  split; [reflexivity |].
  rewrite lookup_alter_ne by congruence.
  rewrite lookup_alter_eq, Hph. reflexivity.
Qed.

Lemma constructor_overwrites_head_next this raw b n i w w' h ph :
  frame_pools_list w = Some h -> objs w !! h = Some ph -> h <> this ->
  ContFramePool this raw b n i w = Done tt w' ->
  frame_pools_list w' = Some h
  /\ objs w' !! h = Some (set_next (Some this) ph).
Proof.
  intros Hh Hph Hne. unfold ContFramePool.
  destruct (n <=? to_uint (FRAME_SIZE * 4)); [| discriminate].
  cbv zeta. destruct (_ =? 0).
  - destruct (get_frames _ _ _) as [u [p3 m3] | e [p3 m3]]; [| discriminate].
    intros H. injection H as <-.
    apply register_overwrites_head_next; simpl; try assumption.
    rewrite lookup_insert_ne by congruence. exact Hph.
  - intros H. injection H as <-.
    apply register_overwrites_head_next; simpl; try assumption.
    rewrite lookup_insert_ne by congruence. exact Hph.
Qed.

(** On a frame that is [Free] and heads nothing, [release_frames]
    returns and raises the free count of the owner by one. *)
Lemma release_frames_on_free_frame w a p f :
  owner w f = Some a -> objs w !! a = Some p ->
  pool_bounds p -> nFreeFrames p + 1 < 2 ^ 64 ->
  get_state p (mem w) f = Ok Free ->
  (f + 1 = base_frame_no p + nframes p
   \/ exists st, get_state p (mem w) (f + 1) = Ok st /\ st <> Used) ->
  exists w2,
    release_frames f w = Done tt w2
    /\ free_count a w2 = Some (nFreeFrames p + 1).
Proof.
  intros Howner Ha Hp Hfc _ Hstop.
  apply release_walk_owner in Howner as (q & Hq & Howns & Hwalk).
  rewrite Ha in Hq. injection Hq as <-.
  apply (owns_spec p f Hp) in Howns.
  destruct (release_in_run a p f 1 w) as (m' & E & _); try assumption; try lia.
  - apply all_state_empty. lia.
  - unfold release_frames. rewrite Hwalk, E. eexists. split; [reflexivity |].
    unfold free_count. simpl objs. rewrite lookup_insert_eq. reflexivity.
Qed.

(** The first loop of the constructor writes the code [00] only: a byte
    that is zero stays zero, wherever the loop writes. *)
Lemma set_state_Free_zero p m f x : m x = 0 -> set_state p m f Free x = 0.
Proof.
  intros Hx. unfold set_state, store.
  destruct (x =? _) eqn:E; [| exact Hx].
  apply Z.eqb_eq in E. subst x. rewrite Z.eqb_refl, Hx.
  rewrite Z.land_0_l, Z.shiftl_0_l. reflexivity.
Qed.

Lemma init_free_zero k : forall i p m x, m x = 0 -> init_free k i p m x = 0.
Proof.
  induction k as [| k IH]; intros i p m x Hx; [exact Hx |].
  simpl. apply IH. apply set_state_Free_zero. exact Hx.
Qed.

Lemma needed_info_frames_one n :
  1 <= n <= 4 * FRAME_SIZE -> needed_info_frames n = 1.
Proof.
  unfold needed_info_frames, FRAME_SIZE. intros Hn.
  change (to_uint (4 * 4096)) with 16384.
  destruct (Z.eq_dec n 16384) as [-> | Hne]; [reflexivity |].
  rewrite Z.div_small, Z.mod_small by lia.
  destruct (Z.ltb_spec 0 n); [reflexivity | lia].
Qed.

Lemma register_keeps_object this w p :
  objs w !! this = Some p ->
  exists q, objs (register this w) !! this = Some q
            /\ bitmap q = bitmap p /\ nFreeFrames q = nFreeFrames p
            /\ base_frame_no q = base_frame_no p /\ nframes q = nframes p.
Proof.
  intros Hp. unfold register. destruct (frame_pools_list w) as [h |]; simpl.
  - rewrite lookup_alter_eq.
    destruct (decide (h = this)) as [-> | Hne].
    + rewrite lookup_alter_eq, Hp. simpl. eexists. split; [reflexivity |].
      repeat split.
    + rewrite lookup_alter_ne by exact Hne. rewrite Hp. simpl.
      eexists. split; [reflexivity |]. repeat split.
  - rewrite lookup_alter_eq, Hp. simpl. eexists. split; [reflexivity |].
    repeat split.
Qed.

(** The first loop of the constructor writes only bitmap bytes as the
    pointer it finds in [bitmap] locates them. *)
Lemma init_free_bytes k : forall i p m,
  0 <= i -> i + Z.of_nat k < MAX_FRAME ->
  same_bytes_outside p m (init_free k i p m) i (i + Z.of_nat k).
Proof.
  induction k as [| k IH]; intros i p m Hi Hk x Hx; [reflexivity |].
  simpl init_free. unwrap. rewrite IH.
  - apply set_state_other_byte; [lia |]. apply Hx. lia.
  - lia.
  - lia.
  - intros g Hg. apply Hx. lia.
Qed.

(** Where the byte that holds the state of the base frame is zero before
    the construction, the self-hosting bootstrap does what C8 says; and
    every other byte holds after the construction what it held before,
    unless the pointer found in [bitmap] led the first loop to it. *)
Lemma bootstrap_on_clear_byte this raw b n w :
  0 <= b -> 1 <= n <= 4 * FRAME_SIZE -> b + n < MAX_FRAME ->
  mem w (b * FRAME_SIZE + b / 4) = 0 ->
  exists w' p,
    ContFramePool this raw b n 0 w = Done tt w'
    /\ objs w' !! this = Some p
    /\ get_state p (mem w') b = Ok HoS
    /\ nFreeFrames p = n - 1
    /\ bitmap p = b * FRAME_SIZE
    /\ forall x, x <> b * FRAME_SIZE + b / 4 ->
                 (forall f, b <= f < b + n -> x <> bitmap raw + f / 4) ->
                 mem w' x = mem w x.
Proof.
  intros Hb Hn Hmax Hzero. pose proof MAX_FRAME_eq as HM.
  unfold ContFramePool.
  change (to_uint (FRAME_SIZE * 4)) with (4 * FRAME_SIZE).
  destruct (Z.leb_spec n (4 * FRAME_SIZE)); [| lia].
  cbv zeta. simpl info_frame_no. simpl base_frame_no. simpl nframes.
  change (0 =? 0) with true. cbv iota.
  rewrite needed_info_frames_one by exact Hn.
  change (to_uint 1) with 1.
  rewrite (to_ulong_small (b * FRAME_SIZE)) by (unfold FRAME_SIZE; lia).
  rewrite (to_int_small b) by lia.
  rewrite (to_ulong_small b), (to_ulong_small (b + n)) by lia.
  replace (b + n - b) with n by lia.
  match goal with
  | |- context [get_frames ?p2 ?m1 1] => set (q := p2); set (m := m1)
  end.
  assert (Hq : pool_bounds q).
  { unfold q, pool_bounds. simpl. unfold FRAME_SIZE in Hn. lia. }
  assert (Hfree : get_state q m b = Ok Free).
  { rewrite get_state_field by lia. unfold q. simpl bitmap.
    unfold m. rewrite init_free_zero by exact Hzero.
    unfold field. rewrite Z.shiftr_0_l. reflexivity. }
  destruct (get_frames_first_fit q m 1 b Hq) as (m' & E & Hhos & _ & _ & Hbytes).
  - unfold q. simpl. lia.
  - unfold q. simpl. lia.
  - unfold q. simpl. lia.
  - intros g Hg. replace g with b by lia. exact Hfree.
  - unfold q. simpl. intros h' Hh'. lia.
  - unfold q. simpl. intros g Hg. lia.
  - rewrite E.
    match goal with
    | |- context [register this ?w0] => set (w1 := w0)
    end.
    destruct (register_keeps_object this w1 (set_nFreeFrames (nFreeFrames q - 1) q))
      as (r & Hr & Hbm & Hfc & _).
    { unfold w1. simpl. apply lookup_insert_eq. }
    assert (Hmem : mem (register this w1) = m').
    { unfold register. destruct (frame_pools_list w1); reflexivity. }
    exists (register this w1), r. split; [reflexivity |].
    split; [exact Hr |]. rewrite Hmem. split; [| split; [| split]].
    + rewrite get_state_field in Hhos |- * by lia.
      rewrite Hbm. exact Hhos.
    + rewrite Hfc. unfold q. simpl. reflexivity.
    + rewrite Hbm. reflexivity.
    + intros x Hx Hold. rewrite Hbytes.
      * unfold m. rewrite init_free_bytes; [reflexivity | lia | |].
        -- rewrite Z2Nat.id by lia. lia.
        -- rewrite Z2Nat.id by lia. exact Hold.
      * intros g Hg. replace g with b by lia. unfold q. simpl bitmap. exact Hx.
Qed.

(** Hence a frame of the pool whose state is not in the byte of the base
    frame reads, after the construction, the code that memory happened
    to hold. *)
Lemma constructor_keeps_stale_code this raw b n w g :
  0 <= b -> 1 <= n <= 4 * FRAME_SIZE -> b + n < MAX_FRAME ->
  mem w (b * FRAME_SIZE + b / 4) = 0 ->
  b < g < b + n -> g / 4 <> b / 4 ->
  (forall f, b <= f < b + n -> bitmap raw + f / 4 <> b * FRAME_SIZE + g / 4) ->
  exists w' p,
    ContFramePool this raw b n 0 w = Done tt w'
    /\ objs w' !! this = Some p
    /\ get_state p (mem w') g
       = decode (field (mem w (b * FRAME_SIZE + g / 4)) (g mod 4 * 2)).
Proof.
  intros Hb Hn Hmax Hzero Hg Hbyte Hold.
  destruct (bootstrap_on_clear_byte this raw b n w Hb Hn Hmax Hzero)
    as (w' & p & E & Hp & _ & _ & Hbm & Hmem).
  exists w', p. split; [exact E |]. split; [exact Hp |].
  rewrite get_state_field by lia. rewrite Hbm, Hmem; [reflexivity | lia |].
  intros f Hf Heq. apply (Hold f Hf). symmetry. exact Heq.
Qed.

(** The rest of C6: [mark_inaccessible] halts when the target frame is
    not free, when the range ends beyond the pool, and when a frame
    inside the range is not free. *)
Lemma mark_used_rejects k : forall c p m,
  0 <= c -> c + Z.of_nat k < MAX_FRAME ->
  (exists g, c <= g < c + Z.of_nat k /\ get_state p m g <> Ok Free) ->
  exists e m', mark_used k c p m = Halt e m'.
Proof.
  induction k as [| k IH]; intros c p m Hc Hk (g & Hg & Hbad); [lia |].
  simpl mark_used. unwrap.
  destruct (get_state p m c) as [[] | e] eqn:Hst; eauto.
  apply IH; [lia | lia |].
  exists g. split.
  - destruct (Z.eq_dec g c) as [-> | Hne]; [contradiction | lia].
  - rewrite get_set_other; [exact Hbad | lia | lia |].
    intros ->. contradiction.
Qed.

Lemma mark_inaccessible_rejects p m b n :
  pool_bounds p -> 0 <= b -> 0 <= n -> b + n < MAX_FRAME ->
  get_state p m b <> Ok Free
  \/ base_frame_no p + nframes p < b + n
  \/ (exists g, b < g < b + n /\ get_state p m g <> Ok Free) ->
  exists e s, mark_inaccessible p m b n = Halt e s.
Proof.
  intros (Hb0 & Hn0 & Hmax & Hfc) Hb Hn Hbn Hcases.
  unfold mark_inaccessible.
  destruct (get_state p m b) as [[] | e] eqn:Hst; eauto.
  rewrite (to_ulong_small (b + n)) by bounds.
  rewrite (to_ulong_small (base_frame_no p + nframes p)) by bounds.
  destruct (Z.leb_spec (b + n) (base_frame_no p + nframes p)) as [Hle | Hgt]; eauto.
  destruct Hcases as [Hbad | [Hbad | (g & Hg & Hbad)]]; [contradiction | lia |].
  unwrap.
  destruct (mark_used_rejects (Z.to_nat (b + n - (b + 1))) (b + 1) p
              (set_state p m b HoS)) as (e & m' & E).
  - lia.
  - rewrite Z2Nat.id by lia. lia.
  - exists g. rewrite Z2Nat.id by lia. split; [lia |].
    rewrite get_set_other by lia. exact Hbad.
  - rewrite E. eauto.
Qed.
